(** * Golden-section search: the engine of [golden_section_search.py]

    The engine is embedded once, over an abstract arithmetic (the
    operations the Python code applies to its numbers), and then read at
    two arithmetics:

    - [Binary64]: IEEE-754 double precision, what the interpreter runs;
      the definitions compute there;
    - [Exact]: the real numbers, the arithmetic in which the
      specification types [a], [b], [tol] and [f] (section 4.1).

    Properties of control flow (errors, evaluation counts, iteration
    counts, result selection) are proved for every arithmetic, so for
    doubles too.  Properties of lengths and positions are proved over the
    reals; what rounding does to them (a factor [gr] only up to rounding,
    interior points that meet an endpoint once the bracket is a few ulps
    wide, overflow of [b - a]) is outside those statements. *)

From Stdlib Require Import ZArith List Bool Lia.
From Stdlib Require String DecimalString.
Import String.StringSyntax.
Delimit Scope string_scope with string.
From Stdlib Require Import Reals Lra.
From Stdlib Require Import Floats.
Import ListNotations.

Set Implicit Arguments.

(* ===================================================================== *)
(** ** Numbers as the code uses them *)
(* ===================================================================== *)

(** The operations of the source on [float] values: [+], [-], [*], [/],
    [math.sqrt], integer literals, unary minus, and the comparisons [<]
    and [<=] ([x > y] is [y < x], [x >= y] is [y <= x]). *)
Class Arith (T : Type) : Type := {
  add : T -> T -> T;
  sub : T -> T -> T;
  mul : T -> T -> T;
  div : T -> T -> T;
  sqrt : T -> T;
  opp : T -> T;
  lit : Z -> T;
  ltb : T -> T -> bool;
  leb : T -> T -> bool
}.

Definition gtb {T} `{Arith T} (x y : T) : bool := ltb y x.
Definition geb {T} `{Arith T} (x y : T) : bool := leb y x.

(* ===================================================================== *)
(** ** Effects: exceptions and the evaluations of [f] *)
(* ===================================================================== *)

(** What a Python call may raise here: the engine's own [ValueError], or
    whatever the supplied function raised ([E] is the type of those). *)
Inductive exn (E : Type) : Type :=
| ValueError (msg : String.string)
| Propagated (e : E).
Arguments ValueError {E} msg.
Arguments Propagated {E} e.

(** How a computation ends.  [Unfinished] is the loop model running out
    of fuel; [golden_section_search] never ends that way
    ([search_finishes]). *)
Inductive outcome (E A : Type) : Type :=
| Returns (v : A)
| Raises (e : exn E)
| Unfinished.
Arguments Returns {E A} v.
Arguments Raises {E A} e.
Arguments Unfinished {E A}.

(** A supplied function answers with a value or raises. *)
Definition callable (E T : Type) : Type := T -> E + T.

(** Computations thread the list of points at which [f] has been called,
    oldest first: the call counter the specification wraps around [f]. *)
Definition M (E T A : Type) : Type := list T -> list T * outcome E A.

Definition ret {E T A} (v : A) : M E T A := fun log => (log, Returns v).

Definition raise {E T A} (e : exn E) : M E T A := fun log => (log, Raises e).

Definition bind {E T A B} (m : M E T A) (k : A -> M E T B) : M E T B :=
  fun log =>
    match m log with
    | (log', Returns v) => k v log'
    | (log', Raises e) => (log', Raises e)
    | (log', Unfinished) => (log', Unfinished)
    end.

(** [f(x)]: the point is logged, then the answer of [f] returned or its
    exception raised. *)
Definition call {E T} (f : callable E T) (x : T) : M E T T :=
  fun log =>
    match f x with
    | inr v => (log ++ [x], Returns v)
    | inl e => (log ++ [x], Raises (Propagated e))
    end.

Declare Scope gss_scope.
Delimit Scope gss_scope with gss.
Notation "x <- m ;; k" := (bind m (fun x => k))
  (at level 61, m at next level, right associativity) : gss_scope.

(* ===================================================================== *)
(** ** The engine *)
(* ===================================================================== *)

(** The local variables of [golden_section_search] that live across loop
    iterations. *)
Record state (T : Type) : Type := mkState {
  st_a : T;
  st_b : T;
  st_c : T;
  st_d : T;
  st_fc : T;
  st_fd : T;
  st_it : Z
}.

Section Engine.
Context {T : Type} `{Arith T} {E : Type}.
Local Open Scope gss_scope.

(** [gr = (math.sqrt(5) - 1) / 2] *)
Definition gr : T := div (sub (sqrt (lit 5)) (lit 1)) (lit 2).

(** [b, d, fd = d, c, fc; c = b - gr * (b - a); fc = f(c)] *)
Definition move_b (f : callable E T) (s : state T) : M E T (state T) :=
  let b := st_d s in
  let d := st_c s in
  let fd := st_fc s in
  let c := sub b (mul gr (sub b (st_a s))) in
  fc <- call f c ;;
  ret (mkState (st_a s) b c d fc fd (st_it s)).

(** [a, c, fc = c, d, fd; d = a + gr * (b - a); fd = f(d)] *)
Definition move_a (f : callable E T) (s : state T) : M E T (state T) :=
  let a := st_c s in
  let c := st_d s in
  let fc := st_fd s in
  let d := add a (mul gr (sub (st_b s) a)) in
  fd <- call f d ;;
  ret (mkState a (st_b s) c d fc fd (st_it s)).

(** [it += 1] *)
Definition tick (s : state T) : state T :=
  mkState (st_a s) (st_b s) (st_c s) (st_d s) (st_fc s) (st_fd s)
          (st_it s + 1).

(** The test that sends an iteration to the [b = d] branch: [fc < fd]
    when minimizing, [fc > fd] when maximizing. *)
Definition towards_c (minimize : bool) (s : state T) : bool :=
  if minimize then ltb (st_fc s) (st_fd s) else gtb (st_fc s) (st_fd s).

(** The body of the [while] loop. *)
Definition body (f : callable E T) (minimize : bool) (s : state T)
  : M E T (state T) :=
  s' <- (if minimize then
           if ltb (st_fc s) (st_fd s) then move_b f s else move_a f s
         else
           if gtb (st_fc s) (st_fd s) then move_b f s else move_a f s) ;;
  ret (tick s').

(** [(b - a) > tol and it < max_iter] *)
Definition guard (tol : T) (max_iter : Z) (s : state T) : bool :=
  gtb (sub (st_b s) (st_a s)) tol && (st_it s <? max_iter)%Z.

(** The [while] loop, by fuel. *)
Fixpoint loop (fuel : nat) (f : callable E T) (tol : T) (max_iter : Z)
         (minimize : bool) (s : state T) : M E T (state T) :=
  if guard tol max_iter s then
    match fuel with
    | O => fun log => (log, Unfinished)
    | S fuel' =>
        s' <- body f minimize s ;;
        loop fuel' f tol max_iter minimize s'
    end
  else ret s.

(** Lines 42 to 47: the first two interior points and their values. *)
Definition init (f : callable E T) (a b : T) : M E T (state T) :=
  let c := sub b (mul gr (sub b a)) in
  let d := add a (mul gr (sub b a)) in
  fc <- call f c ;;
  fd <- call f d ;;
  ret (mkState a b c d fc fd 0).

(** Lines 72 to 78: [if (fc < fd) == minimize]. *)
Definition pick (minimize : bool) (s : state T) : T * T * Z :=
  if Bool.eqb (ltb (st_fc s) (st_fd s)) minimize
  then (st_c s, st_fc s, st_it s)
  else (st_d s, st_fd s, st_it s).

(** The state with which the loop is left. *)
Definition final_state (f : callable E T) (a b tol : T) (max_iter : Z)
           (minimize : bool) : M E T (state T) :=
  if geb a b then
    raise (ValueError "Require a < b for the search interval"%string)
  else
    s0 <- init f a b ;;
    loop (Z.to_nat max_iter) f tol max_iter minimize s0.

Definition golden_section_search (f : callable E T) (a b tol : T)
           (max_iter : Z) (minimize : bool) : M E T (T * T * Z) :=
  s <- final_state f a b tol max_iter minimize ;;
  ret (pick minimize s).

End Engine.

(* ===================================================================== *)
(** ** Vocabulary of the properties *)
(* ===================================================================== *)

Section Vocabulary.
Context {T : Type} `{Arith T} {E : Type}.

(** A configuration: the loop variables at the head of the [while] loop
    and the evaluations made so far. *)
Definition config : Type := state T * list T.

(** [iterates f tol max_iter minimize k k']: the loop, standing at its
    head in [k], stands at its head in [k'] after zero or more completed
    iterations. *)
Inductive iterates (f : callable E T) (tol : T) (max_iter : Z)
          (minimize : bool) : config -> config -> Prop :=
| iterates_here k : iterates f tol max_iter minimize k k
| iterates_next s log s' log' k :
    guard tol max_iter s = true ->
    body f minimize s log = (log', Returns s') ->
    iterates f tol max_iter minimize (s', log') k ->
    iterates f tol max_iter minimize (s, log) k.

(** The specification's wording of the result selection: the test of
    the loop body, applied to the final [fc] and [fd]. *)
Definition pick_as_loop (minimize : bool) (s : state T) : T * T * Z :=
  if towards_c minimize s
  then (st_c s, st_fc s, st_it s)
  else (st_d s, st_fd s, st_it s).

(** The pointwise negation [-f] of a supplied function. *)
Definition negated (f : callable E T) : callable E T :=
  fun x => match f x with
           | inr v => inr (opp v)
           | inl e => inl e
           end.

(** The loop variables of a run on [-f] that mirrors a run on [f]. *)
Definition mirrored (s : state T) : state T :=
  mkState (st_a s) (st_b s) (st_c s) (st_d s)
          (opp (st_fc s)) (opp (st_fd s)) (st_it s).

(** The one point at which an iteration from [s] evaluates [f]: the new
    [c] of the [b = d] branch, or the new [d] of the [a = c] branch. *)
Definition next_point (minimize : bool) (s : state T) : T :=
  if towards_c minimize s
  then sub (st_d s) (mul gr (sub (st_d s) (st_a s)))
  else add (st_c s) (mul gr (sub (st_b s) (st_c s))).

(** The loop variables after an iteration from [s] in which [f] answered
    [v] at that point. *)
Definition next_state (minimize : bool) (s : state T) (v : T) : state T :=
  if towards_c minimize s
  then mkState (st_a s) (st_d s) (next_point minimize s) (st_c s)
               v (st_fc s) (st_it s + 1)
  else mkState (st_c s) (st_b s) (st_d s) (next_point minimize s)
               (st_fd s) v (st_it s + 1).

(** The first two interior points (lines 43 and 44). *)
Definition first_c (a b : T) : T := sub b (mul gr (sub b a)).
Definition first_d (a b : T) : T := add a (mul gr (sub b a)).

(** The loop variables on entry to the loop, [f] having answered [fc] and
    [fd] at the first two interior points. *)
Definition first_state (a b fc fd : T) : state T :=
  mkState a b (first_c a b) (first_d a b) fc fd 0.

(** How the part of [golden_section_search] before the result selection
    can end, the check of the interval having passed. *)
Inductive ending (f : callable E T) (tol : T) (max_iter : Z)
          (minimize : bool) (a b : T) (log : list T)
  : list T -> outcome E (state T) -> Prop :=
| ends_at_first_c e :
    f (first_c a b) = inl e ->
    ending f tol max_iter minimize a b log (log ++ [first_c a b]) (Raises (Propagated e))
| ends_at_first_d fc e :
    f (first_c a b) = inr fc -> f (first_d a b) = inl e ->
    ending f tol max_iter minimize a b log (log ++ [first_c a b; first_d a b])
           (Raises (Propagated e))
| ends_in_loop fc fd s1 log1 e :
    f (first_c a b) = inr fc -> f (first_d a b) = inr fd ->
    iterates f tol max_iter minimize
             (first_state a b fc fd, log ++ [first_c a b; first_d a b])
             (s1, log1) ->
    guard tol max_iter s1 = true ->
    f (next_point minimize s1) = inl e ->
    ending f tol max_iter minimize a b log (log1 ++ [next_point minimize s1])
           (Raises (Propagated e))
| ends_well fc fd s1 log1 :
    f (first_c a b) = inr fc -> f (first_d a b) = inr fd ->
    iterates f tol max_iter minimize
             (first_state a b fc fd, log ++ [first_c a b; first_d a b])
             (s1, log1) ->
    guard tol max_iter s1 = false ->
    ending f tol max_iter minimize a b log log1 (Returns s1).

(** The end of a run on [-f] that mirrors the end of a run on [f]. *)
Definition mirrored_end (k : list T * outcome E (state T))
  : list T * outcome E (state T) :=
  (fst k,
   match snd k with
   | Returns s => Returns (mirrored s)
   | Raises e => Raises e
   | Unfinished => Unfinished
   end).

(** [f] answers at [x]. *)
Definition answers (f : callable E T) (x : T) : Prop :=
  exists v, f x = inr v.

End Vocabulary.

(* ===================================================================== *)
(** ** The two arithmetics *)
(* ===================================================================== *)

Module Binary64.

(** An integer literal, as a double. *)
Definition of_int (z : Z) : float :=
  match z with
  | Z0 => PrimFloat.of_uint63 (Uint63.of_Z 0)
  | Zpos _ => PrimFloat.of_uint63 (Uint63.of_Z z)
  | Zneg _ => PrimFloat.opp (PrimFloat.of_uint63 (Uint63.of_Z (- z)))
  end.

#[export] Instance arith : Arith float := {|
  add := PrimFloat.add;
  sub := PrimFloat.sub;
  mul := PrimFloat.mul;
  div := PrimFloat.div;
  sqrt := PrimFloat.sqrt;
  opp := PrimFloat.opp;
  lit := of_int;
  ltb := PrimFloat.ltb;
  leb := PrimFloat.leb
|}.

(** [example_quadratic]: [(x - 2.0) ** 2 + 1.0], the square taken as a
    product. *)
Definition quadratic (x : float) : float :=
  PrimFloat.add (PrimFloat.mul (PrimFloat.sub x 2) (PrimFloat.sub x 2)) 1.

Definition example_quadratic {E} : callable E float :=
  fun x => inr (quadratic x).

(** [f(x) = 1.0]: the two cached values are always equal. *)
Definition flat64 : callable unit float := fun _ => inr 1%float.

End Binary64.

Module Exact.

Definition Rltb (x y : R) : bool := if Rlt_dec x y then true else false.
Definition Rleb (x y : R) : bool := if Rle_dec x y then true else false.

#[export] Instance arith : Arith R := {|
  add := Rplus;
  sub := Rminus;
  mul := Rmult;
  div := Rdiv;
  sqrt := R_sqrt.sqrt;
  opp := Ropp;
  lit := IZR;
  ltb := Rltb;
  leb := Rleb
|}.

Local Open Scope R_scope.

(** Runs over [[0, 1]] that end at the cap after one iteration with the
    two cached values equal: the third point evaluated, the loop variables
    on leaving the loop ([w] is the common value), and the evaluations. *)
Definition second_d : R := first_c 0 1 + gr * (1 - first_c 0 1).

Definition tie_state (w : R) : state R :=
  mkState (first_c 0 1) 1 (first_d 0 1) second_d w w 1%Z.

Definition tie_log : list R := [first_c 0 1; first_d 0 1; second_d].

(** [f(x) = 0]: the two cached values are always equal. *)
Definition flat : callable unit R := fun _ => inr 0.

Definition flat_log : list R := tie_log.

(** [f(x) = (x - m)^2] with [m = 1 - gr / 2]: strictly convex, its minimum
    inside [[0, 1]]. *)
Definition valley : callable unit R :=
  fun x => inr ((x - (1 - gr / 2)) * (x - (1 - gr / 2))).




End Exact.


(* ===================================================================== *)
(** ** The command line program *)
(* ===================================================================== *)

(** The [argparse.Namespace] that [parse_args] hands to [main]:
    [--example] and [--expr] are [None] when not given. *)
Record Namespace (T : Type) : Type := mkNamespace {
  arg_a : T;
  arg_b : T;
  arg_tol : T;
  arg_max_iter : Z;
  arg_maximize : bool;
  arg_example : option String.string;
  arg_expr : option String.string
}.

(** How [main] ends: [raise SystemExit(msg)], an exception of the engine
    or of the function passing through, or the lines printed.  [Stalls]
    is the loop model out of fuel, as [Unfinished]. *)
Inductive ended (E : Type) : Type :=
| Exits (msg : String.string)
| Fails (e : exn E)
| Prints (out : list String.string)
| Stalls.
Arguments Exits {E} msg.
Arguments Fails {E} e.
Arguments Prints {E} out.
Arguments Stalls {E}.

(** The truth value Python gives an optional string in an [if]: [None]
    and the empty string are false. *)
Definition truthy (o : option String.string) : bool :=
  match o with
  | None => false
  | Some s => negb (String.eqb s "")
  end.

Definition text (o : option String.string) : String.string :=
  match o with
  | None => ""%string
  | Some s => s
  end.

(** [f"{it}"] for an [int]. *)
Definition str_of_int (z : Z) : String.string :=
  DecimalString.NilZero.string_of_int (Z.to_int z).

Section MainProgram.
Context {T : Type} `{Arith T} {E : Type}.

(** What [main] uses and this file does not define for every arithmetic:
    the builtin [abs], the format [:.12g], the two example functions
    ([Examples] gives them over the reals) and
    [make_function_from_expr], which calls [eval]. *)
Variable absolute : T -> T.
Variable format_12g : T -> String.string.
Variable example_quadratic : callable E T.
Variable example_wavy : callable E T.
Variable make_function_from_expr : String.string -> callable E T.

(** Lines 124 to 137: the function to search, or the message of the
    [SystemExit]. *)
Definition chosen_function (args : Namespace T)
  : String.string + callable E T :=
  if truthy (arg_example args) && truthy (arg_expr args) then
    inl "Choose either --example or --expr, not both."%string
  else if truthy (arg_example args) then
    if String.eqb (text (arg_example args)) "quadratic" then
      inr example_quadratic
    else if String.eqb (text (arg_example args)) "wavy" then
      inr example_wavy
    else inl "Unknown example"%string
  else if truthy (arg_expr args) then
    inr (make_function_from_expr (text (arg_expr args)))
  else inl "Please provide --example or --expr"%string.

(** Lines 143 to 147: the five lines printed. *)
Definition report (args : Namespace T) (r : T * T * Z)
  : list String.string :=
  let '(x_opt, f_opt, it) := r in
  [ "Result:"%string;
    String.append "  x_opt = " (format_12g x_opt);
    String.append "  f(x_opt) = " (format_12g f_opt);
    String.append "  iterations = " (str_of_int it);
    String.append "  final interval length = "
      (String.append
         (format_12g (absolute (sub (arg_b args) (arg_a args))))
         "  (note: original endpoints unchanged in output)") ].

(** [main], from the parsed arguments on. *)
Definition main (args : Namespace T) : list T -> list T * ended E :=
  fun log =>
    match chosen_function args with
    | inl msg => (log, Exits msg)
    | inr f =>
        match golden_section_search f (arg_a args) (arg_b args)
                (arg_tol args) (arg_max_iter args)
                (negb (arg_maximize args)) log
        with
        | (log', Returns r) => (log', Prints (report args r))
        | (log', Raises e) => (log', Fails e)
        | (log', Unfinished) => (log', Stalls)
        end
    end.

End MainProgram.

Section MoreVocabulary.
Context {T : Type} `{Arith T} {E : Type}.

(** The cached values are the answers of [f] at the interior points. *)
Definition coherent (f : callable E T) (s : state T) : Prop :=
  f (st_c s) = inr (st_fc s) /\ f (st_d s) = inr (st_fd s).


End MoreVocabulary.

(** The example functions and the defaults, over the reals. *)
Module Examples.
Import Exact.
Local Open Scope R_scope.

(** [example_quadratic]: [(x - 2.0) ** 2 + 1.0] *)
Definition example_quadratic {E : Type} : callable E R :=
  fun x => inr ((x - 2) ^ 2 + 1).

(** [example_wavy]: [(x - 0.5) ** 2 + math.sin(3 * x)] *)
Definition example_wavy {E : Type} : callable E R :=
  fun x => inr ((x - 1 / 2) ^ 2 + sin (3 * x)).












End Examples.

(* ===================================================================== *)
(** ** Facts of control flow, in every arithmetic *)
(* ===================================================================== *)

Lemma Returns_inj {E A : Type} (x y : A) :
  @Returns E A x = Returns y -> x = y.
Proof.
  intros Heq.
  exact (f_equal (fun o => match o with Returns v => v | _ => x end) Heq).
Qed.

Section Flow.
Context {T : Type} `{Arith T} {E : Type}.
Variable f : callable E T.
Variable tol : T.
Variable max_iter : Z.
Variable minimize : bool.

Lemma body_towards_c (s : state T) :
  body f minimize s
  = bind (if towards_c minimize s then move_b f s else move_a f s)
         (fun s' => ret (tick s')).
Proof. unfold body, towards_c. destruct minimize; reflexivity. Qed.

(** One iteration is one evaluation, at [next_point]. *)
Lemma body_run (s : state T) (log : list T) :
  body f minimize s log
  = (log ++ [next_point minimize s],
     match f (next_point minimize s) with
     | inr v => Returns (next_state minimize s v)
     | inl e => Raises (Propagated e)
     end).
Proof.
  rewrite body_towards_c.
  unfold next_state, next_point.
  destruct (towards_c minimize s);
    unfold bind, move_b, move_a, call, ret, tick; cbn;
    match goal with |- context [f ?x] => destruct (f x) end; reflexivity.
Qed.

Lemma body_returns (s s' : state T) (log log' : list T) :
  body f minimize s log = (log', Returns s') ->
  exists v, f (next_point minimize s) = inr v /\
            s' = next_state minimize s v /\
            log' = log ++ [next_point minimize s].
Proof.
  rewrite body_run. intros Hb.
  destruct (f (next_point minimize s)) as [e|v] eqn:Hf; inversion Hb; subst.
  exists v. auto.
Qed.

Lemma body_raises (s : state T) (log log' : list T) (e : exn E) :
  body f minimize s log = (log', Raises e) ->
  exists e', e = Propagated e' /\ f (next_point minimize s) = inl e' /\
             log' = log ++ [next_point minimize s].
Proof.
  rewrite body_run. intros Hb.
  destruct (f (next_point minimize s)) as [e'|v] eqn:Hf; inversion Hb; subst.
  exists e'. auto.
Qed.

Lemma body_finishes (s : state T) (log log' : list T) :
  body f minimize s log <> (log', Unfinished).
Proof.
  rewrite body_run. destruct (f (next_point minimize s)); discriminate.
Qed.

Lemma next_state_it (s : state T) (v : T) :
  st_it (next_state minimize s v) = (st_it s + 1)%Z.
Proof. unfold next_state. destruct (towards_c minimize s); reflexivity. Qed.

Lemma guard_true (s : state T) :
  guard tol max_iter s = true ->
  gtb (sub (st_b s) (st_a s)) tol = true /\ (st_it s < max_iter)%Z.
Proof.
  unfold guard. intros Hg. apply andb_true_iff in Hg as [Hl Hi].
  split; [assumption | now apply Z.ltb_lt].
Qed.


Lemma iterates_trans (k1 k2 k3 : config (T:=T)) :
  iterates f tol max_iter minimize k1 k2 ->
  iterates f tol max_iter minimize k2 k3 ->
  iterates f tol max_iter minimize k1 k3.
Proof.
  induction 1 as [k | s log s' log' k Hg Hb Hit IH]; intros H23.
  - exact H23.
  - eapply iterates_next; eauto.
Qed.

(** Proving a property of every configuration the loop passes through:
    it holds at the start and each completed iteration keeps it. *)
Lemma iterates_invariant (P : config (T:=T) -> Prop) :
  (forall s log v,
      P (s, log) -> guard tol max_iter s = true ->
      f (next_point minimize s) = inr v ->
      P (next_state minimize s v, log ++ [next_point minimize s])) ->
  forall k k', iterates f tol max_iter minimize k k' -> P k -> P k'.
Proof.
  intros Hstep k k' Hit.
  induction Hit as [k | s log s' log' k Hg Hb Hit IH]; intros HP.
  - exact HP.
  - apply IH. apply body_returns in Hb as (v & Hf & -> & ->).
    now apply Hstep.
Qed.

(** The iteration counter counts iterations, each made one evaluation at
    which [f] answered, and never passes [max_iter]. *)
Lemma iterates_count (s s' : state T) (log log' : list T) :
  iterates f tol max_iter minimize (s, log) (s', log') ->
  exists pts,
    log' = log ++ pts /\ Forall (answers f) pts /\
    st_it s' = (st_it s + Z.of_nat (length pts))%Z /\
    ((st_it s <= max_iter)%Z -> (st_it s' <= max_iter)%Z).
Proof.
  intros Hit.
  refine (iterates_invariant
            (fun k' => exists pts,
                 snd k' = log ++ pts /\ Forall (answers f) pts /\
                 st_it (fst k') = (st_it s + Z.of_nat (length pts))%Z /\
                 ((st_it s <= max_iter)%Z -> (st_it (fst k') <= max_iter)%Z))
            _ Hit _).
  - intros s1 log1 v (pts & Hlog & Hans & Hcnt & Hcap) Hg Hf. cbn in *.
    apply guard_true in Hg as [_ Hlt].
    exists (pts ++ [next_point minimize s1]). repeat split.
    + rewrite Hlog. now rewrite app_assoc.
    + apply Forall_app. split; [assumption|].
      constructor; [now exists v | constructor].
    + rewrite next_state_it, Hcnt, length_app. cbn. lia.
    + intros _. rewrite next_state_it. lia.
  - exists []. cbn. repeat split.
    + now rewrite app_nil_r.
    + constructor.
    + lia.
    + auto.
Qed.

(** What a run of the loop is: completed iterations up to a configuration
    [k1], where the loop is left, or [f] raises, or the fuel is spent. *)
Lemma loop_run (fuel : nat) :
  forall (s : state T) (log log' : list T) (o : outcome E (state T)),
    loop fuel f tol max_iter minimize s log = (log', o) ->
    exists s1 log1,
      iterates f tol max_iter minimize (s, log) (s1, log1) /\
      match o with
      | Returns s' => s' = s1 /\ log' = log1 /\ guard tol max_iter s1 = false
      | Raises e =>
          guard tol max_iter s1 = true /\
          body f minimize s1 log1 = (log', Raises e)
      | Unfinished =>
          log' = log1 /\ guard tol max_iter s1 = true /\
          st_it s1 = (st_it s + Z.of_nat fuel)%Z
      end.
Proof.
  induction fuel as [|fuel IH]; intros s log log' o Hl; cbn in Hl.
  - destruct (guard tol max_iter s) eqn:Hg.
    + inversion Hl; subst. exists s, log'. split; [constructor|].
      repeat split; [assumption | cbn; lia].
    + inversion Hl; subst. exists s, log'. split; [constructor|]. auto.
  - destruct (guard tol max_iter s) eqn:Hg.
    + unfold bind in Hl.
      destruct (body f minimize s log) as [log1 [s1| e |]] eqn:Hb.
      * apply IH in Hl as (s2 & log2 & Hit & Ho).
        exists s2, log2. split; [eapply iterates_next; eauto|].
        destruct o; auto.
        destruct Ho as (? & ? & Hcnt). repeat split; auto.
        apply body_returns in Hb as (v & _ & -> & _).
        rewrite Hcnt, next_state_it. lia.
      * inversion Hl; subst. exists s, log. split; [constructor|]. auto.
      * now apply body_finishes in Hb.
    + inversion Hl; subst. exists s, log'. split; [constructor|]. auto.
Qed.

(** The two initial evaluations. *)
Lemma init_run (a b : T) (log : list T) :
  init f a b log
  = match f (first_c a b) with
    | inl e => (log ++ [first_c a b], Raises (Propagated e))
    | inr fc =>
        match f (first_d a b) with
        | inl e => (log ++ [first_c a b; first_d a b], Raises (Propagated e))
        | inr fd => (log ++ [first_c a b; first_d a b],
                     Returns (first_state a b fc fd))
        end
    end.
Proof.
  unfold init, first_state, bind, call, ret. fold (first_c a b) (first_d a b).
  destruct (f (first_c a b)); [reflexivity|].
  destruct (f (first_d a b)); now rewrite <- app_assoc.
Qed.


(** The fuel [golden_section_search] gives its loop is never spent. *)
Lemma loop_fuel_enough (s1 : state T) :
  guard tol max_iter s1 = true ->
  st_it s1 <> Z.of_nat (Z.to_nat max_iter).
Proof. intros Hg. apply guard_true in Hg as [_ Hlt]. lia. Qed.

Lemma final_state_run (a b : T) (log log' : list T)
      (o : outcome E (state T)) :
  geb a b = false ->
  final_state f a b tol max_iter minimize log = (log', o) ->
  ending f tol max_iter minimize a b log log' o.
Proof.
  unfold final_state. intros -> Hrun. unfold bind in Hrun.
  rewrite init_run in Hrun.
  destruct (f (first_c a b)) as [e|fc] eqn:Hc.
  { inversion Hrun; subst. now constructor. }
  destruct (f (first_d a b)) as [e|fd] eqn:Hd.
  { inversion Hrun; subst. econstructor; eauto. }
  apply loop_run in Hrun as (s1 & log1 & Hit & Ho).
  destruct o as [s' | e |].
  - destruct Ho as (-> & -> & Hg). eapply ends_well; eauto.
  - destruct Ho as (Hg & Hb).
    apply body_raises in Hb as (e' & -> & Hf & ->).
    eapply ends_in_loop; eauto.
  - destruct Ho as (_ & Hg & Hcnt).
    cbn in Hcnt. now apply loop_fuel_enough in Hg.
Qed.

(** Running the loop forwards. *)
Lemma loop_stop (fuel : nat) (s : state T) (log : list T) :
  guard tol max_iter s = false ->
  loop fuel f tol max_iter minimize s log = (log, Returns s).
Proof. intros Hg. destruct fuel; cbn; now rewrite Hg. Qed.

Lemma loop_step (fuel : nat) (s : state T) (log : list T) (v : T) :
  guard tol max_iter s = true ->
  f (next_point minimize s) = inr v ->
  loop (S fuel) f tol max_iter minimize s log
  = loop fuel f tol max_iter minimize (next_state minimize s v)
         (log ++ [next_point minimize s]).
Proof.
  intros Hg Hf. cbn. rewrite Hg. unfold bind. now rewrite body_run, Hf.
Qed.



Lemma final_state_invalid (a b : T) (log : list T) :
  geb a b = true ->
  final_state f a b tol max_iter minimize log
  = (log, Raises (ValueError "Require a < b for the search interval"%string)).
Proof. unfold final_state. now intros ->. Qed.

(** [golden_section_search] is that part followed by the selection. *)
Lemma search_run (a b : T) (log : list T) :
  golden_section_search f a b tol max_iter minimize log
  = (fst (final_state f a b tol max_iter minimize log),
     match snd (final_state f a b tol max_iter minimize log) with
     | Returns s => Returns (pick minimize s)
     | Raises e => Raises e
     | Unfinished => Unfinished
     end).
Proof.
  unfold golden_section_search, bind, ret.
  now destruct (final_state f a b tol max_iter minimize log) as [l [s|e|]].
Qed.

Lemma search_returns_inv (a b : T) (log log' : list T) (r : T * T * Z) :
  golden_section_search f a b tol max_iter minimize log = (log', Returns r) ->
  exists s, final_state f a b tol max_iter minimize log = (log', Returns s)
            /\ r = pick minimize s.
Proof.
  rewrite search_run.
  destruct (final_state f a b tol max_iter minimize log) as [l [s|e|]];
    cbn; intros Hr; inversion Hr; subst.
  now exists s.
Qed.

Lemma search_valid (a b : T) (log log' : list T) (r : T * T * Z) :
  golden_section_search f a b tol max_iter minimize log = (log', Returns r) ->
  geb a b = false.
Proof.
  intros Hr. destruct (geb a b) eqn:Hab; [|reflexivity].
  rewrite search_run, final_state_invalid in Hr by assumption.
  discriminate.
Qed.


(** The loop always has fuel enough: a call returns or raises. *)
Lemma search_finishes (a b : T) (log : list T) :
  snd (golden_section_search f a b tol max_iter minimize log) <> Unfinished.
Proof.
  rewrite search_run. cbn [snd].
  destruct (geb a b) eqn:Hab.
  - rewrite final_state_invalid by assumption. discriminate.
  - destruct (final_state f a b tol max_iter minimize log) as [l o] eqn:Hfin.
    apply final_state_run in Hfin; [|assumption].
    destruct Hfin; discriminate.
Qed.

Lemma pick_it (s : state T) : snd (pick minimize s) = st_it s.
Proof.
  unfold pick.
  now destruct (Bool.eqb (ltb (st_fc s) (st_fd s)) minimize).
Qed.

End Flow.

(* ===================================================================== *)
(** ** Errors, evaluation counts and result selection, in every
       arithmetic *)
(* ===================================================================== *)

Section FlowProperties.
Context {T : Type} `{Arith T} {E : Type}.
Variable f : callable E T.
Variable tol : T.
Variable minimize : bool.

(** C2.  When [a >= b] the call raises the engine's error for an invalid
    interval (a [ValueError] in the source) and the log of evaluations is
    left as it was: [f] has not been called. *)
Theorem invalid_interval_raises_before_any_evaluation
        (max_iter : Z) (a b : T) (log : list T) :
  geb a b = true ->
  golden_section_search f a b tol max_iter minimize log
  = (log, Raises (ValueError "Require a < b for the search interval"%string)).
Proof.
  intros Hab. rewrite search_run, final_state_invalid by assumption.
  reflexivity.
Qed.

(** C3.  A call that passes the interval check and returns [iterations]
    has evaluated [f] at the two first interior points and then once per
    iteration: [iterations + 2] evaluations in all.  Every iteration,
    whatever its branch, makes exactly one evaluation. *)
Theorem evaluations_are_iterations_plus_two
        (max_iter : Z) (a b : T) (log log' : list T) (x fx : T) (it : Z) :
  geb a b = false ->
  golden_section_search f a b tol max_iter minimize log
  = (log', Returns (x, fx, it)) ->
  (exists pts,
      log' = log ++ [first_c a b; first_d a b] ++ pts /\
      Z.of_nat (length pts) = it /\
      Z.of_nat (length log') = (Z.of_nat (length log) + (it + 2))%Z) /\
  (forall s l, exists p, fst (body f minimize s l) = l ++ [p]).
Proof.
  intros Hab Hrun. split.
  - apply search_returns_inv in Hrun as (s & Hfin & Hr).
    apply final_state_run in Hfin; [|assumption].
    inversion Hfin as [| | | fc fd s1 log1 Hc Hd Hit Hg]; subst.
    apply iterates_count in Hit as (pts & Hlog & _ & Hcnt & _).
    assert (Hs : st_it s = it).
    { rewrite <- (pick_it minimize s), <- Hr. reflexivity. }
    exists pts. cbn in Hcnt. repeat split.
    + rewrite Hlog. now rewrite <- app_assoc.
    + lia.
    + rewrite Hlog, !length_app. cbn. lia.
  - intros s l. exists (next_point minimize s). now rewrite body_run.
Qed.

(** C5, as the code has it.  After the loop the call returns [(c, fc)]
    when [(fc < fd) == minimize] and [(d, fd)] otherwise, always one of
    the two final interior points with its cached value.  When minimizing
    this is the test of the loop body.  When maximizing it is the test of
    the loop body ([fc > fd]) whenever exactly one of [fc < fd] and
    [fc > fd] holds; when neither holds (equal values), the loop body
    takes its [a = c] branch while the selection returns [(c, fc)]. *)
Theorem selection_after_loop
        (max_iter : Z) (a b : T) (log log' : list T) (r : T * T * Z) :
  golden_section_search f a b tol max_iter minimize log = (log', Returns r) ->
  exists s,
    final_state f a b tol max_iter minimize log = (log', Returns s) /\
    r = (if Bool.eqb (ltb (st_fc s) (st_fd s)) minimize
         then (st_c s, st_fc s, st_it s) else (st_d s, st_fd s, st_it s)) /\
    (r = (st_c s, st_fc s, st_it s) \/ r = (st_d s, st_fd s, st_it s)) /\
    (minimize = true -> r = pick_as_loop minimize s) /\
    (ltb (st_fc s) (st_fd s) <> gtb (st_fc s) (st_fd s) ->
     r = pick_as_loop minimize s) /\
    (minimize = false ->
     ltb (st_fc s) (st_fd s) = false -> gtb (st_fc s) (st_fd s) = false ->
     r = (st_c s, st_fc s, st_it s) /\
     pick_as_loop minimize s = (st_d s, st_fd s, st_it s)).
Proof.
  intros Hrun. apply search_returns_inv in Hrun as (s & Hfin & ->).
  exists s. split; [assumption|]. unfold pick, pick_as_loop, towards_c.
  split; [reflexivity|].
  destruct minimize, (ltb (st_fc s) (st_fd s)) eqn:Hlt,
           (gtb (st_fc s) (st_fd s)) eqn:Hgt; cbn;
    repeat split; auto; try discriminate; try congruence.
Qed.

(** C8.  With [max_iter = 0] the loop is not entered: the call returns
    after the two initial evaluations, with [iterations = 0] and the
    selection made between the two first interior points. *)
Theorem zero_iterations_when_max_iter_is_zero
        (a b : T) (log : list T) (fc fd : T) :
  geb a b = false ->
  f (first_c a b) = inr fc ->
  f (first_d a b) = inr fd ->
  golden_section_search f a b tol 0 minimize log
  = (log ++ [first_c a b; first_d a b],
     Returns (if Bool.eqb (ltb fc fd) minimize
              then (first_c a b, fc, 0%Z) else (first_d a b, fd, 0%Z))).
Proof.
  intros Hab Hc Hd.
  unfold golden_section_search, final_state. rewrite Hab.
  unfold bind at 1 2. rewrite init_run, Hc, Hd. cbn.
  unfold guard. rewrite andb_false_r. reflexivity.
Qed.

End FlowProperties.

(* ===================================================================== *)
(** ** Runs in double precision *)
(* ===================================================================== *)

Section Binary64Runs.
Import Binary64.

Lemma invalid_interval_witness :
  golden_section_search (example_quadratic (E:=unit)) 5%float (-5)%float
                        0x1p-20%float 1000 true []
  = ([], Raises (ValueError "Require a < b for the search interval"%string)).
Proof.
  apply invalid_interval_raises_before_any_evaluation.
  vm_compute. reflexivity.
Defined.

Lemma evaluations_witness :
  exists log' x fx it,
    golden_section_search (example_quadratic (E:=unit)) (-5)%float 5%float
                          0x1p-20%float 1000 true []
    = (log', Returns (x, fx, it)) /\
    it = 34%Z /\ Z.of_nat (length log') = (0 + (it + 2))%Z.
Proof.
  eexists _, _, _, _. split; [vm_compute; reflexivity|].
  split; [reflexivity|].
  refine (match evaluations_are_iterations_plus_two
                  (example_quadratic (E:=unit)) 0x1p-20%float true 1000
                  (-5)%float 5%float [] _ _
          with conj (ex_intro _ _ (conj _ (conj _ Hlen))) _ => Hlen end);
    vm_compute; reflexivity.
Defined.

Lemma selection_witness :
  exists s,
    final_state flat64 0%float 1%float 0.5%float 1000 false []
    = (fst (final_state flat64 0%float 1%float 0.5%float 1000 false []),
       Returns s) /\
    st_it s = 2%Z /\ PrimFloat.ltb (st_c s) (st_d s) = true /\
    snd (golden_section_search flat64 0%float 1%float 0.5%float 1000 false [])
    = Returns (st_c s, st_fc s, st_it s).
Proof.
  destruct (selection_after_loop flat64 0.5%float false 1000 0%float 1%float []
              (log' := fst (final_state flat64 0%float 1%float 0.5%float
                                        1000 false []))
              (r := match snd (golden_section_search
                                 flat64 0%float 1%float 0.5%float 1000 false [])
                    with
                    | Returns r => r
                    | _ => (0%float, 0%float, 0%Z)
                    end))
    as (s & Hfin & Hr & _).
  { vm_compute. reflexivity. }
  exists s. split; [exact Hfin|].
  apply (f_equal snd) in Hfin. cbn [snd] in Hfin.
  apply Returns_inj in Hfin. subst s.
  vm_compute. auto.
Defined.

Lemma zero_iterations_witness :
  golden_section_search (example_quadratic (E:=unit)) (-5)%float 5%float
                        0x1p-20%float 0 true []
  = ([first_c (-5)%float 5%float; first_d (-5)%float 5%float],
     Returns (first_d (-5)%float 5%float,
              quadratic (first_d (-5)%float 5%float), 0%Z)).
Proof.
  rewrite (zero_iterations_when_max_iter_is_zero
             (example_quadratic (E:=unit)) 0x1p-20%float true
             (-5)%float 5%float []
             (fc := quadratic (first_c (-5)%float 5%float))
             (fd := quadratic (first_d (-5)%float 5%float)));
    vm_compute; reflexivity.
Defined.

(** C5 fails as worded.  Maximizing [flat64] on [0, 1] with [tol = 0.5]:
    the loop is left with [fc = fd]; the test of the loop body
    ([fc > fd]) is false, which by the wording selects [(d, fd)], and the
    call returns [(c, fc)], a different point. *)
Lemma selection_is_not_the_loop_test :
  ~ (forall (f : callable unit float) (a b tol : float) (max_iter : Z)
            (minimize : bool) (log log' : list float) (s : state float),
        final_state f a b tol max_iter minimize log = (log', Returns s) ->
        golden_section_search f a b tol max_iter minimize log
        = (log', Returns (pick_as_loop minimize s))).
Proof.
  intros Hclaim.
  specialize (Hclaim flat64 0%float 1%float 0.5%float 1000%Z false []).
  specialize (Hclaim _ _ eq_refl).
  apply (f_equal (fun p => match snd p with
                           | Returns (x, _, _) => PrimFloat.ltb x 0.8125%float
                           | _ => false
                           end)) in Hclaim.
  vm_compute in Hclaim. discriminate.
Defined.

End Binary64Runs.

(* ===================================================================== *)
(** ** Facts of exact arithmetic *)
(* ===================================================================== *)

Section ExactFacts.
Import Exact.
Local Open Scope R_scope.

Lemma Rltb_true (x y : R) : Rltb x y = true <-> x < y.
Proof. unfold Rltb. destruct (Rlt_dec x y); split; auto; discriminate. Qed.

Lemma Rltb_false (x y : R) : Rltb x y = false <-> y <= x.
Proof.
  unfold Rltb. destruct (Rlt_dec x y); split; auto; try discriminate; lra.
Qed.


Lemma geb_false (a b : R) : geb a b = false <-> a < b.
Proof.
  unfold geb. cbn. unfold Rleb.
  destruct (Rle_dec b a); split; auto; try discriminate; lra.
Qed.

Lemma gr_value : gr = (R_sqrt.sqrt 5 - 1) / 2.
Proof. reflexivity. Qed.

(** The defining equation of the golden ratio: [gr * gr = 1 - gr]. *)
Lemma gr_square : gr * gr = 1 - gr.
Proof.
  rewrite gr_value.
  assert (Hs : R_sqrt.sqrt 5 * R_sqrt.sqrt 5 = 5) by (apply sqrt_sqrt; lra).
  nra.
Qed.

Lemma gr_bounds : 1 / 2 < gr < 1.
Proof.
  rewrite gr_value.
  assert (Hs : R_sqrt.sqrt 5 * R_sqrt.sqrt 5 = 5) by (apply sqrt_sqrt; lra).
  assert (Hp : 0 <= R_sqrt.sqrt 5) by apply sqrt_pos.
  split; nra.
Qed.







Section Runs.
Context {E : Type}.
Variable f : callable E R.
Variable tol : R.
Variable max_iter : Z.
Variable minimize : bool.








End Runs.

End ExactFacts.

(* ===================================================================== *)
(** ** The bracket, its length and the tolerance, in exact arithmetic *)
(* ===================================================================== *)

Section ExactProperties.
Import Exact.
Local Open Scope R_scope.
Context {E : Type}.
Variable f : callable E R.
Variable tol : R.
Variable max_iter : Z.
Variable minimize : bool.






End ExactProperties.

(* ===================================================================== *)
(** ** Minimizing [f] and maximizing [-f] *)
(* ===================================================================== *)

Section Symmetry.
Import Exact.
Local Open Scope R_scope.
Context {E : Type}.
Variable f : callable E R.
Variable tol : R.
Variable max_iter : Z.

Lemma towards_c_mirrored (s : state R) :
  towards_c false (mirrored s) = towards_c true s.
Proof.
  unfold towards_c, gtb, mirrored. cbn. unfold Rltb.
  destruct (Rlt_dec (- st_fd s) (- st_fc s)),
           (Rlt_dec (st_fc s) (st_fd s)); auto; lra.
Qed.

Lemma next_point_mirrored (s : state R) :
  next_point false (mirrored s) = next_point true s.
Proof. unfold next_point. rewrite towards_c_mirrored. reflexivity. Qed.

Lemma next_state_mirrored (s : state R) (v : R) :
  next_state false (mirrored s) (- v) = mirrored (next_state true s v).
Proof.
  unfold next_state. rewrite next_point_mirrored, towards_c_mirrored.
  destruct (towards_c true s); reflexivity.
Qed.

Lemma body_mirrored (s : state R) (log : list R) :
  body (negated f) false (mirrored s) log = mirrored_end (body f true s log).
Proof.
  rewrite !body_run, next_point_mirrored. unfold mirrored_end, negated. cbn.
  destruct (f (next_point true s)) as [e|v]; [reflexivity|].
  now rewrite next_state_mirrored.
Qed.

Lemma loop_mirrored (fuel : nat) :
  forall (s : state R) (log : list R),
    loop fuel (negated f) tol max_iter false (mirrored s) log
    = mirrored_end (loop fuel f tol max_iter true s log).
Proof.
  induction fuel as [|fuel IH]; intros s log; cbn [loop];
    change (guard tol max_iter (mirrored s)) with (guard tol max_iter s);
    destruct (guard tol max_iter s); try reflexivity.
  unfold bind. rewrite body_mirrored.
  destruct (body f true s log) as [l [s'|e|]]; cbn; auto.
Qed.

Lemma init_mirrored (a b : R) (log : list R) :
  init (negated f) a b log = mirrored_end (init f a b log).
Proof.
  rewrite !init_run. unfold negated, mirrored_end.
  destruct (f (first_c a b)); [reflexivity|].
  destruct (f (first_d a b)); reflexivity.
Qed.

Lemma final_state_mirrored (a b : R) (log : list R) :
  final_state (negated f) a b tol max_iter false log
  = mirrored_end (final_state f a b tol max_iter true log).
Proof.
  unfold final_state. destruct (geb a b); [reflexivity|].
  unfold bind. rewrite init_mirrored.
  destruct (init f a b log) as [l [s|e|]]; cbn; auto.
  apply loop_mirrored.
Qed.



End Symmetry.

Section TieAtTheCap.
Import Exact.
Local Open Scope R_scope.
Variable f : callable unit R.
Variables u w : R.
Hypothesis Hc : f (first_c 0 1) = inr u.
Hypothesis Hd : f (first_d 0 1) = inr w.
Hypothesis Hn : f second_d = inr w.
Hypothesis Huw : w <= u.

(** The first iteration takes the [a = c] branch and evaluates [f] at
    [second_d]. *)
Lemma tie_next_state :
  next_state true (first_state 0 1 u w) w = tie_state w /\
  next_point true (first_state 0 1 u w) = second_d.
Proof.
  unfold next_state, next_point.
  assert (Hb : towards_c true (first_state 0 1 u w) = false).
  { unfold towards_c. cbn. now apply Rltb_false. }
  rewrite Hb. split; reflexivity.
Qed.

Lemma tie_guard_entry : guard (1 / 10) 1 (first_state 0 1 u w) = true.
Proof.
  unfold guard, gtb. cbn.
  rewrite (proj2 (Rltb_true (1 / 10) (1 - 0))) by lra. reflexivity.
Qed.

Lemma tie_init :
  init f 0 1 [] = ([first_c 0 1; first_d 0 1], Returns (first_state 0 1 u w)).
Proof. rewrite init_run, Hc, Hd. reflexivity. Qed.


Lemma tie_final_state :
  final_state f 0 1 (1 / 10) 1 true [] = (tie_log, Returns (tie_state w)).
Proof.
  unfold final_state. rewrite (proj2 (geb_false 0 1)) by lra.
  unfold bind. rewrite tie_init.
  change (Z.to_nat 1) with 1%nat.
  destruct tie_next_state as [Hs Hp].
  rewrite (loop_step f (1 / 10) 1 true 0 (first_state 0 1 u w) _ (v := w)).
  - rewrite Hs, Hp. apply loop_stop.
    unfold guard. cbn. apply andb_false_r.
  - exact tie_guard_entry.
  - now rewrite Hp.
Qed.

(** Minimizing returns the final [d]. *)
Lemma tie_minimum :
  golden_section_search f 0 1 (1 / 10) 1 true []
  = (tie_log, Returns (second_d, w, 1%Z)).
Proof.
  rewrite search_run, tie_final_state. cbn [fst snd].
  unfold pick, tie_state. cbn [st_fc st_fd st_c st_d st_it].
  change (ltb w w) with (Rltb w w).
  rewrite (proj2 (Rltb_false w w)) by lra. reflexivity.
Qed.

(** Maximizing the negation returns the final [c]. *)
Lemma tie_maximum_of_negated :
  golden_section_search (negated f) 0 1 (1 / 10) 1 false []
  = (tie_log, Returns (first_d 0 1, - w, 1%Z)).
Proof.
  rewrite search_run, final_state_mirrored, tie_final_state.
  unfold mirrored_end. cbn [fst snd].
  unfold pick, mirrored, tie_state. cbn [st_fc st_fd st_c st_d st_it].
  change (ltb (opp w) (opp w)) with (Rltb (- w) (- w)).
  rewrite (proj2 (Rltb_false (- w) (- w))) by lra. reflexivity.
Qed.

End TieAtTheCap.

Section FlatRun.
Import Exact.
Local Open Scope R_scope.

Lemma gr_below_five_eighths : gr < 5 / 8.
Proof.
  rewrite gr_value.
  assert (Hs : R_sqrt.sqrt 5 * R_sqrt.sqrt 5 = 5) by (apply sqrt_sqrt; lra).
  assert (Hp : 0 <= R_sqrt.sqrt 5) by apply sqrt_pos.
  nra.
Qed.

(** The two points returned are further apart than [tol = 1/10]. *)
Lemma tie_points_apart : 1 / 10 < second_d - first_d 0 1.
Proof.
  unfold second_d, first_c, first_d.
  pose proof gr_below_five_eighths as Hlt.
  pose proof gr_square as Hsq.
  set (g := gr) in *. clearbody g. cbn. nra.
Qed.



Lemma flat_minimum :
  golden_section_search flat 0 1 (1 / 10) 1 true []
  = (flat_log, Returns (second_d, 0, 1%Z)).
Proof. exact (tie_minimum flat eq_refl eq_refl eq_refl (Rle_refl 0)). Qed.


(** The same on a strictly convex function: the two final interior
    points are at equal distances from its minimum. *)
Lemma valley_ties :
  valley second_d
  = inr ((first_d 0 1 - (1 - gr / 2)) * (first_d 0 1 - (1 - gr / 2))) /\
  (first_d 0 1 - (1 - gr / 2)) * (first_d 0 1 - (1 - gr / 2))
  <= (first_c 0 1 - (1 - gr / 2)) * (first_c 0 1 - (1 - gr / 2)).
Proof.
  unfold valley, second_d, first_c, first_d.
  pose proof gr_square as Hsq. pose proof gr_bounds as Hgr.
  pose proof gr_below_five_eighths as Hlt.
  set (g := gr) in *. clearbody g. cbn. split.
  - f_equal. nra.
  - nra.
Qed.

Lemma symmetry_of_the_point_fails_on_a_convex_function :
  exists x1 x2 y,
    golden_section_search valley 0 1 (1 / 10) 1 true []
    = (tie_log, Returns (x1, y, 1%Z)) /\
    golden_section_search (negated valley) 0 1 (1 / 10) 1 false []
    = (tie_log, Returns (x2, - y, 1%Z)) /\
    1 / 10 < x1 - x2.
Proof.
  destruct valley_ties as [Hn Huw].
  exists second_d, (first_d 0 1),
         ((first_d 0 1 - (1 - gr / 2)) * (first_d 0 1 - (1 - gr / 2))).
  split; [|split].
  - exact (tie_minimum valley eq_refl eq_refl Hn Huw).
  - exact (tie_maximum_of_negated valley eq_refl eq_refl Hn Huw).
  - exact tie_points_apart.
Qed.

End FlatRun.

(* ===================================================================== *)
(** ** Direction symmetry, in exact arithmetic *)
(* ===================================================================== *)

Section SymmetryProperty.
Import Exact.
Local Open Scope R_scope.
Context {E : Type}.
Variable f : callable E R.
Variable tol : R.
Variable max_iter : Z.


End SymmetryProperty.

(* ===================================================================== *)
(** ** Runs in exact arithmetic *)
(* ===================================================================== *)

Section ExactRuns.
Import Exact.
Local Open Scope R_scope.








End ExactRuns.

(* ===================================================================== *)
(** ** Further properties of the engine, in every arithmetic *)
(* ===================================================================== *)

Section MoreFlow.
Context {T : Type} `{Arith T} {E : Type}.
Variable f : callable E T.
Variable tol : T.
Variable max_iter : Z.
Variable minimize : bool.

Lemma coherent_next (s : state T) (v : T) :
  coherent f s -> f (next_point minimize s) = inr v ->
  coherent f (next_state minimize s v).
Proof.
  intros [Hc Hd] Hv. unfold coherent, next_state.
  destruct (towards_c minimize s); cbn; auto.
Qed.

Lemma iterates_coherent (k k' : config (T:=T)) :
  iterates f tol max_iter minimize k k' ->
  coherent f (fst k) -> coherent f (fst k').
Proof.
  apply (iterates_invariant (fun k => coherent f (fst k))).
  intros s log v Hco _ Hv. now apply coherent_next.
Qed.

(** X1.  The value returned is the answer of [f] at the point returned:
    the cache never gets out of step with the points. *)
Theorem returned_value_is_f_at_the_returned_point
        (a b : T) (log log' : list T) (x fx : T) (it : Z) :
  golden_section_search f a b tol max_iter minimize log
  = (log', Returns (x, fx, it)) ->
  f x = inr fx.
Proof.
  intros Hrun. pose proof (search_valid _ _ _ _ _ _ _ Hrun) as Hab.
  apply search_returns_inv in Hrun as (s & Hfin & Hr).
  apply final_state_run in Hfin; [|assumption].
  inversion Hfin as [| | | fc fd s1 log1 Hc Hd Hit Hg]; subst.
  apply iterates_coherent in Hit; [|split; assumption].
  destruct Hit as [Hcc Hcd]. cbn [fst] in Hcc, Hcd.
  unfold pick in Hr.
  destruct (Bool.eqb (ltb (st_fc s) (st_fd s)) minimize).
  - assert (Hx : x = st_c s) by exact (f_equal (fun r => fst (fst r)) Hr).
    assert (Hy : fx = st_fc s) by exact (f_equal (fun r => snd (fst r)) Hr).
    now rewrite Hx, Hy.
  - assert (Hx : x = st_d s) by exact (f_equal (fun r => fst (fst r)) Hr).
    assert (Hy : fx = st_fd s) by exact (f_equal (fun r => snd (fst r)) Hr).
    now rewrite Hx, Hy.
Qed.

(** X2.  When the test of the loop fails on entry, because the cap is
    zero or negative or because [(b - a) > tol] is false, the call
    returns after the two initial evaluations with [iterations = 0]. *)
Theorem loop_not_entered
        (a b : T) (log : list T) (fc fd : T) :
  geb a b = false ->
  f (first_c a b) = inr fc ->
  f (first_d a b) = inr fd ->
  (max_iter <= 0)%Z \/ gtb (sub b a) tol = false ->
  golden_section_search f a b tol max_iter minimize log
  = (log ++ [first_c a b; first_d a b],
     Returns (if Bool.eqb (ltb fc fd) minimize
              then (first_c a b, fc, 0%Z) else (first_d a b, fd, 0%Z))).
Proof.
  intros Hab Hc Hd Hedge.
  unfold golden_section_search, final_state. rewrite Hab.
  unfold bind at 1 2. rewrite init_run, Hc, Hd.
  rewrite loop_stop; [reflexivity|].
  unfold guard, first_state. cbn [st_a st_b st_it].
  destruct Hedge as [Hcap | Htol].
  - apply andb_false_iff. right. apply Z.ltb_ge. lia.
  - rewrite Htol. reflexivity.
Qed.

End MoreFlow.

(* ===================================================================== *)
(** ** The command line program, in every arithmetic *)
(* ===================================================================== *)

Section MainFlow.
Context {T : Type} `{Arith T} {E : Type}.
Variable absolute : T -> T.
Variable format_12g : T -> String.string.
Variable example_quadratic : callable E T.
Variable example_wavy : callable E T.
Variable make_function_from_expr : String.string -> callable E T.

Local Notation "'main''" :=
  (main absolute format_12g example_quadratic example_wavy
        make_function_from_expr).
Local Notation "'chosen''" :=
  (chosen_function example_quadratic example_wavy make_function_from_expr).

Lemma main_chosen (args : Namespace T) (g : callable E T) (log : list T) :
  chosen' args = inr g ->
  main' args log
  = match golden_section_search g (arg_a args) (arg_b args)
            (arg_tol args) (arg_max_iter args)
            (negb (arg_maximize args)) log
    with
    | (log', Returns r) =>
        (log', Prints (report absolute format_12g args r))
    | (log', Raises e) => (log', Fails e)
    | (log', Unfinished) => (log', Stalls)
    end.
Proof. unfold main. now intros ->. Qed.



(** X12.  With a function chosen and [a >= b], [main] ends with the
    engine's [ValueError]: nothing is evaluated and nothing printed. *)
Theorem main_passes_the_interval_error_on
        (args : Namespace T) (g : callable E T) (log : list T) :
  chosen' args = inr g ->
  geb (arg_a args) (arg_b args) = true ->
  main' args log
  = (log, Fails (ValueError "Require a < b for the search interval"%string)).
Proof.
  intros Hch Hab. rewrite (main_chosen _ _ Hch).
  now rewrite search_run, final_state_invalid by assumption.
Qed.

End MainFlow.

(* ===================================================================== *)
(** ** Further properties of the engine, in exact arithmetic *)
(* ===================================================================== *)

Section MoreExact.
Import Exact Examples.
Local Open Scope R_scope.
Context {E : Type}.
Variable f : callable E R.
Variable tol : R.
Variable max_iter : Z.
Variable minimize : bool.












End MoreExact.

Section Independence.
Import Exact Examples.
Local Open Scope R_scope.
Context {E E' : Type}.


End Independence.

(* ===================================================================== *)
(** ** Unimodal functions: the bracket keeps the extremum *)
(* ===================================================================== *)

Section Unimodal.
Import Exact Examples.
Local Open Scope R_scope.
Context {E : Type}.
Variable g : R -> R.
Variable tol : R.
Variable max_iter : Z.
Variable minimize : bool.







End Unimodal.

(* ===================================================================== *)
(** ** No point is evaluated twice *)
(* ===================================================================== *)

Section Economy.
Import Exact Examples.
Local Open Scope R_scope.
Context {E : Type}.
Variable f : callable E R.
Variable tol : R.
Variable max_iter : Z.
Variable minimize : bool.





End Economy.

(* ===================================================================== *)
(** ** The defaults and the example functions, in exact arithmetic *)
(* ===================================================================== *)

Section ExampleProperties.
Import Exact Examples.
Local Open Scope R_scope.
Context {E : Type}.






End ExampleProperties.

(* ===================================================================== *)
(** ** The command line program, in exact arithmetic *)
(* ===================================================================== *)

Section MainPrints.
Context {T : Type} `{Arith T} {E : Type}.
Variable absolute : T -> T.
Variable format_12g : T -> String.string.
Variable example_quadratic : callable E T.
Variable example_wavy : callable E T.
Variable make_function_from_expr : String.string -> callable E T.


End MainPrints.

Section MainExact.
Import Exact Examples.
Local Open Scope R_scope.
Context {E : Type}.
Variable format_12g : R -> String.string.
Variable make_function_from_expr : String.string -> callable E R.





End MainExact.

(* ===================================================================== *)
(** ** Further runs *)
(* ===================================================================== *)

Section MoreRuns.
Import Exact Examples.
Local Open Scope R_scope.



Lemma returned_value_witness : flat second_d = inr 0.
Proof.
  exact (@returned_value_is_f_at_the_returned_point
           R _ unit flat (1 / 10) 1%Z true 0 1 [] _ _ _ _ flat_minimum).
Defined.












End MoreRuns.

Section MoreBinary64Runs.
Import Binary64.

Lemma loop_not_entered_witness :
  golden_section_search (example_quadratic (E:=unit)) (-5)%float 5%float
                        0x1p-20%float (-3) true []
  = ([first_c (-5)%float 5%float; first_d (-5)%float 5%float],
     Returns (first_d (-5)%float 5%float,
              quadratic (first_d (-5)%float 5%float), 0%Z)).
Proof.
  rewrite (@loop_not_entered
             float _ unit (example_quadratic (E:=unit)) 0x1p-20%float
             (-3)%Z true (-5)%float 5%float []
             (quadratic (first_c (-5)%float 5%float))
             (quadratic (first_d (-5)%float 5%float))).
  - vm_compute. reflexivity.
  - vm_compute. reflexivity.
  - reflexivity.
  - reflexivity.
  - left. lia.
Defined.

Lemma main_interval_error_witness :
  main PrimFloat.abs (fun _ => ""%string) (example_quadratic (E:=unit))
       flat64 (fun _ => flat64)
       (mkNamespace 5%float (-5)%float 0x1p-20%float 1000 false
                    (Some "quadratic"%string) None) []
  = ([], Fails (ValueError "Require a < b for the search interval"%string)).
Proof.
  apply (@main_passes_the_interval_error_on
           float _ unit PrimFloat.abs (fun _ => ""%string)
           (example_quadratic (E:=unit)) flat64 (fun _ => flat64)
           (mkNamespace 5%float (-5)%float 0x1p-20%float 1000 false
                        (Some "quadratic"%string) None)
           (example_quadratic (E:=unit)) []).
  - reflexivity.
  - vm_compute. reflexivity.
Defined.

End MoreBinary64Runs.
